(** * FastSecp256k1FieldMul: 5-limb multiplication, schoolbook and Karatsuba

    A shallow embedding of [benchmark.c].  The two multipliers
    [fe_mul_schoolbook] and [fe_mul_karatsuba_opt] are straight-line C over
    [uint64_t] limbs and [__uint128_t] accumulators; they are written here as
    functions on [Z] with every wrap-around spelled out.  The timing loop
    [benchmark], the printer [print_fe] and the comparison of [main] follow. *)

From Stdlib Require Import ZArith Lia List Ascii.
From stdpp Require Import numbers list.
Import ListNotations.
Local Open Scope Z_scope.

(** ** Machine arithmetic *)

(** Unsigned C arithmetic on [uint64_t] and [__uint128_t]: the result of every
    operation is reduced modulo the width of its (promoted) operand type. *)
Module Word.

Definition u64 (x : Z) : Z := x mod 2 ^ 64.
Definition u128 (x : Z) : Z := x mod 2 ^ 128.

(** [x + y] on [uint64_t]. *)
Definition add64 (x y : Z) : Z := u64 (x + y).

(** [x + y], [x - y], [x * y] and [x << n] on [__uint128_t]. *)
Definition add128 (x y : Z) : Z := u128 (x + y).
Definition sub128 (x y : Z) : Z := u128 (x - y).
Definition mul128 (x y : Z) : Z := u128 (x * y).
Definition shl128 (x n : Z) : Z := u128 (Z.shiftl x n).

End Word.
Import Word.

(** [#define MASK52 0xFFFFFFFFFFFFFULL] *)
Definition MASK52 : Z := 0xFFFFFFFFFFFFF.

(** ** Field elements *)

(** [fe_limb x[5]]: five limbs, index 0 least significant. *)
Record fe : Type := mk_fe { l0 : Z; l1 : Z; l2 : Z; l3 : Z; l4 : Z }.

Definition fe_to_list (x : fe) : list Z := [l0 x; l1 x; l2 x; l3 x; l4 x].

(** The input invariant of the multipliers: every limb below 2^52. *)
Definition limb_ok (x : Z) : Prop := 0 <= x < 2 ^ 52.
Definition fe_valid (x : fe) : Prop :=
  limb_ok (l0 x) /\ limb_ok (l1 x) /\ limb_ok (l2 x) /\ limb_ok (l3 x) /\ limb_ok (l4 x).

(** What the type [uint64_t] alone guarantees of a limb. *)
Definition fe_u64 (x : fe) : Prop :=
  Forall (fun v => 0 <= v < 2 ^ 64) (fe_to_list x).

(** ** The schoolbook multiplier *)

(** [void fe_mul_schoolbook(const fe_limb *a, const fe_limb *b, fe_limb *r)].
    [tmp] is the local array [__uint128_t tmp[9] = {0}], stored to and updated
    in place by index; the limbs written through [r] are the result.  Every
    read of [a] and [b] precedes the first write to [r]. *)
Definition fe_mul_schoolbook (a b : fe) : fe :=
  let tmp : list Z := replicate 9 0 in
  let tmp := <[0%nat := mul128 (l0 a) (l0 b)]> tmp in
  let tmp := <[1%nat := add128 (mul128 (l0 a) (l1 b)) (mul128 (l1 a) (l0 b))]> tmp in
  let tmp := <[2%nat := add128 (add128 (mul128 (l0 a) (l2 b)) (mul128 (l1 a) (l1 b)))
                               (mul128 (l2 a) (l0 b))]> tmp in
  let tmp := <[3%nat := add128 (add128 (add128 (mul128 (l0 a) (l3 b)) (mul128 (l1 a) (l2 b)))
                                       (mul128 (l2 a) (l1 b)))
                               (mul128 (l3 a) (l0 b))]> tmp in
  let tmp := <[4%nat := add128 (add128 (add128 (add128 (mul128 (l0 a) (l4 b))
                                                       (mul128 (l1 a) (l3 b)))
                                               (mul128 (l2 a) (l2 b)))
                                       (mul128 (l3 a) (l1 b)))
                               (mul128 (l4 a) (l0 b))]> tmp in
  let tmp := <[5%nat := add128 (add128 (add128 (mul128 (l1 a) (l4 b)) (mul128 (l2 a) (l3 b)))
                                       (mul128 (l3 a) (l2 b)))
                               (mul128 (l4 a) (l1 b))]> tmp in
  let tmp := <[6%nat := add128 (add128 (mul128 (l2 a) (l4 b)) (mul128 (l3 a) (l3 b)))
                               (mul128 (l4 a) (l2 b))]> tmp in
  let tmp := <[7%nat := add128 (mul128 (l3 a) (l4 b)) (mul128 (l4 a) (l3 b))]> tmp in
  let tmp := <[8%nat := mul128 (l4 a) (l4 b)]> tmp in
  let r0 := u64 (Z.land (tmp !!! 0%nat) MASK52) in
  let carry := Z.shiftr (tmp !!! 0%nat) 52 in
  let tmp := <[1%nat := add128 (tmp !!! 1%nat) carry]> tmp in
  let r1 := u64 (Z.land (tmp !!! 1%nat) MASK52) in
  let carry := Z.shiftr (tmp !!! 1%nat) 52 in
  let tmp := <[2%nat := add128 (tmp !!! 2%nat) carry]> tmp in
  let r2 := u64 (Z.land (tmp !!! 2%nat) MASK52) in
  let carry := Z.shiftr (tmp !!! 2%nat) 52 in
  let tmp := <[3%nat := add128 (tmp !!! 3%nat) carry]> tmp in
  let r3 := u64 (Z.land (tmp !!! 3%nat) MASK52) in
  let carry := Z.shiftr (tmp !!! 3%nat) 52 in
  let tmp := <[4%nat := add128 (tmp !!! 4%nat) carry]> tmp in
  let r4 := u64 (Z.land (tmp !!! 4%nat) MASK52) in
  mk_fe r0 r1 r2 r3 r4.

(** ** The Karatsuba multiplier *)

(** [static inline void fe_mul_karatsuba_opt(const fe_limb *a, const fe_limb *b,
    fe_limb *r)].  The limb sums are formed on [uint64_t] before the cast to
    [__uint128_t]; the products and the coefficients live on [__uint128_t]. *)
Definition fe_mul_karatsuba_opt (a b : fe) : fe :=
  let p1 := mul128 (l0 a) (l0 b) in
  let p2 := mul128 (add64 (l0 a) (l1 a)) (add64 (l0 b) (l1 b)) in
  let p3 := mul128 (l1 a) (l1 b) in
  let p4 := mul128 (add64 (l0 a) (l2 a)) (add64 (l0 b) (l2 b)) in
  let p5 := mul128 (add64 (add64 (add64 (l0 a) (l1 a)) (l2 a)) (l3 a))
                   (add64 (add64 (add64 (l0 b) (l1 b)) (l2 b)) (l3 b)) in
  let p6 := mul128 (add64 (l1 a) (l3 a)) (add64 (l1 b) (l3 b)) in
  let p7 := mul128 (add64 (add64 (l0 a) (l2 a)) (l4 a))
                   (add64 (add64 (l0 b) (l2 b)) (l4 b)) in
  let p8 := mul128 (l4 a) (l4 b) in
  let p9 := mul128 (add64 (add64 (l1 a) (l3 a)) (l4 a))
                   (add64 (add64 (l1 b) (l3 b)) (l4 b)) in
  let p10 := mul128 (l2 a) (l2 b) in
  let p11 := mul128 (add64 (l2 a) (l3 a)) (add64 (l2 b) (l3 b)) in
  let p12 := mul128 (l3 a) (l3 b) in
  let p13 := mul128 (add64 (l2 a) (l4 a)) (add64 (l2 b) (l4 b)) in
  let p14 := mul128 (add64 (l3 a) (l4 a)) (add64 (l3 b) (l4 b)) in
  let S1 := add128 p1 p3 in
  let S3 := sub128 p10 p8 in
  let c0 := p1 in
  let c1 := sub128 p2 S1 in
  let c2 := sub128 (sub128 (add128 p3 p4) p1) p10 in
  let c3 := add128 (add128 (sub128 (sub128 (sub128 (add128 (sub128 p5 p2) S1) p4) p6) p11)
                           p10) p12 in
  let c4 := sub128 (add128 (sub128 (sub128 (add128 (sub128 p7 p4) p6) p3) p13)
                           (shl128 p10 1)) p12 in
  let c5 := sub128 (sub128 (add128 (sub128 p9 p6) p11) p10) p14 in
  let c6 := sub128 (add128 p13 p12) S3 in
  let c7 := sub128 (sub128 p14 p12) p8 in
  let c8 := p8 in
  let c1 := add128 c1 (Z.shiftr c0 52) in
  let r0 := u64 (Z.land c0 MASK52) in
  let c2 := add128 c2 (Z.shiftr c1 52) in
  let r1 := u64 (Z.land c1 MASK52) in
  let c3 := add128 c3 (Z.shiftr c2 52) in
  let r2 := u64 (Z.land c2 MASK52) in
  let c4 := add128 c4 (Z.shiftr c3 52) in
  let r3 := u64 (Z.land c3 MASK52) in
  let c5 := add128 c5 (Z.shiftr c4 52) in
  let r4 := u64 (Z.land c4 MASK52) in
  mk_fe r0 r1 r2 r3 r4.

(** ** The harness operands *)

(** The arrays [a] and [b] of [main], as written. *)
Definition main_a : fe :=
  mk_fe 0x123456789ABCDEF0 0x0FEDCBA987654321 0x1111111111111111
        0x2222222222222222 0x3333333333333333.
Definition main_b : fe :=
  mk_fe 0x1111111111111111 0x2222222222222222 0x3333333333333333
        0x4444444444444444 0x5555555555555555.

(** Every limb masked to its low 52 bits. *)
Definition fe_mask52 (x : fe) : fe :=
  mk_fe (Z.land (l0 x) MASK52) (Z.land (l1 x) MASK52) (Z.land (l2 x) MASK52)
        (Z.land (l3 x) MASK52) (Z.land (l4 x) MASK52).

(** The comparison at the end of [main]:
    [int ok = 1; for (i = 0; i < 5; i++) if (r1[i] != r2[i]) ok = 0;]. *)
Definition results_equal (r1 r2 : fe) : bool :=
  fold_left (fun ok i =>
               if negb (nth i (fe_to_list r1) 0 =? nth i (fe_to_list r2) 0)
               then false else ok)
            (seq 0 5) true.

(** [main]: both multipliers run on the arrays as written (the warm-up calls
    and the timed repetitions store the same limbs again), then the results
    are compared. *)
Definition main_ok : bool :=
  let r1 := fe_mul_schoolbook main_a main_b in
  let r2 := fe_mul_karatsuba_opt main_a main_b in
  results_equal r1 r2.

(** ** The multipliers without their unused high-order work *)

(** [fe_mul_schoolbook] with the stores to [tmp[5]] .. [tmp[8]] left out; those
    cells keep the zero of the initialiser. *)
Definition fe_mul_schoolbook_low (a b : fe) : fe :=
  let tmp : list Z := replicate 9 0 in
  let tmp := <[0%nat := mul128 (l0 a) (l0 b)]> tmp in
  let tmp := <[1%nat := add128 (mul128 (l0 a) (l1 b)) (mul128 (l1 a) (l0 b))]> tmp in
  let tmp := <[2%nat := add128 (add128 (mul128 (l0 a) (l2 b)) (mul128 (l1 a) (l1 b)))
                               (mul128 (l2 a) (l0 b))]> tmp in
  let tmp := <[3%nat := add128 (add128 (add128 (mul128 (l0 a) (l3 b)) (mul128 (l1 a) (l2 b)))
                                       (mul128 (l2 a) (l1 b)))
                               (mul128 (l3 a) (l0 b))]> tmp in
  let tmp := <[4%nat := add128 (add128 (add128 (add128 (mul128 (l0 a) (l4 b))
                                                       (mul128 (l1 a) (l3 b)))
                                               (mul128 (l2 a) (l2 b)))
                                       (mul128 (l3 a) (l1 b)))
                               (mul128 (l4 a) (l0 b))]> tmp in
  let r0 := u64 (Z.land (tmp !!! 0%nat) MASK52) in
  let carry := Z.shiftr (tmp !!! 0%nat) 52 in
  let tmp := <[1%nat := add128 (tmp !!! 1%nat) carry]> tmp in
  let r1 := u64 (Z.land (tmp !!! 1%nat) MASK52) in
  let carry := Z.shiftr (tmp !!! 1%nat) 52 in
  let tmp := <[2%nat := add128 (tmp !!! 2%nat) carry]> tmp in
  let r2 := u64 (Z.land (tmp !!! 2%nat) MASK52) in
  let carry := Z.shiftr (tmp !!! 2%nat) 52 in
  let tmp := <[3%nat := add128 (tmp !!! 3%nat) carry]> tmp in
  let r3 := u64 (Z.land (tmp !!! 3%nat) MASK52) in
  let carry := Z.shiftr (tmp !!! 3%nat) 52 in
  let tmp := <[4%nat := add128 (tmp !!! 4%nat) carry]> tmp in
  let r4 := u64 (Z.land (tmp !!! 4%nat) MASK52) in
  mk_fe r0 r1 r2 r3 r4.

(** [fe_mul_karatsuba_opt] with the coefficients [c5], [c6], [c7], [c8] and
    the final [c5 += c4 >> 52] left out. *)
Definition fe_mul_karatsuba_low (a b : fe) : fe :=
  let p1 := mul128 (l0 a) (l0 b) in
  let p2 := mul128 (add64 (l0 a) (l1 a)) (add64 (l0 b) (l1 b)) in
  let p3 := mul128 (l1 a) (l1 b) in
  let p4 := mul128 (add64 (l0 a) (l2 a)) (add64 (l0 b) (l2 b)) in
  let p5 := mul128 (add64 (add64 (add64 (l0 a) (l1 a)) (l2 a)) (l3 a))
                   (add64 (add64 (add64 (l0 b) (l1 b)) (l2 b)) (l3 b)) in
  let p6 := mul128 (add64 (l1 a) (l3 a)) (add64 (l1 b) (l3 b)) in
  let p7 := mul128 (add64 (add64 (l0 a) (l2 a)) (l4 a))
                   (add64 (add64 (l0 b) (l2 b)) (l4 b)) in
  let p8 := mul128 (l4 a) (l4 b) in
  let p9 := mul128 (add64 (add64 (l1 a) (l3 a)) (l4 a))
                   (add64 (add64 (l1 b) (l3 b)) (l4 b)) in
  let p10 := mul128 (l2 a) (l2 b) in
  let p11 := mul128 (add64 (l2 a) (l3 a)) (add64 (l2 b) (l3 b)) in
  let p12 := mul128 (l3 a) (l3 b) in
  let p13 := mul128 (add64 (l2 a) (l4 a)) (add64 (l2 b) (l4 b)) in
  let p14 := mul128 (add64 (l3 a) (l4 a)) (add64 (l3 b) (l4 b)) in
  let S1 := add128 p1 p3 in
  let S3 := sub128 p10 p8 in
  let c0 := p1 in
  let c1 := sub128 p2 S1 in
  let c2 := sub128 (sub128 (add128 p3 p4) p1) p10 in
  let c3 := add128 (add128 (sub128 (sub128 (sub128 (add128 (sub128 p5 p2) S1) p4) p6) p11)
                           p10) p12 in
  let c4 := sub128 (add128 (sub128 (sub128 (add128 (sub128 p7 p4) p6) p3) p13)
                           (shl128 p10 1)) p12 in
  let c1 := add128 c1 (Z.shiftr c0 52) in
  let r0 := u64 (Z.land c0 MASK52) in
  let c2 := add128 c2 (Z.shiftr c1 52) in
  let r1 := u64 (Z.land c1 MASK52) in
  let c3 := add128 c3 (Z.shiftr c2 52) in
  let r2 := u64 (Z.land c2 MASK52) in
  let c4 := add128 c4 (Z.shiftr c3 52) in
  let r3 := u64 (Z.land c3 MASK52) in
  let r4 := u64 (Z.land c4 MASK52) in
  mk_fe r0 r1 r2 r3 r4.

(** ** The reference definition of the product *)

(** The multiplication as the specification words it, on unbounded integers:
    the convolution sums, then the carry rule. *)
Module Reference.

(** Limb [i] of [x]; there is no limb beyond index 4. *)
Definition limb (x : fe) (i : nat) : Z := nth i (fe_to_list x) 0.

(** [t[k]], the sum of [a[i] * b[j]] over [i + j = k]. *)
Definition conv_sum (a b : fe) (k : nat) : Z :=
  fold_right Z.add 0 (map (fun i => limb a i * limb b (k - i)) (seq 0 (S k))).

(** One round of the carry rule: [r[i] = x[i] mod 2^52], and
    [floor (x[i] / 2^52)] is added into [x[i+1]]. *)
Definition carry_step (st : list Z * list Z) (i : nat) : list Z * list Z :=
  let '(x, r) := st in
  (<[S i := x !!! S i + x !!! i / 2 ^ 52]> x, <[i := x !!! i mod 2 ^ 52]> r).

(** The rounds [i = 0 .. 3] in index order, then [r[4] = x[4] mod 2^52]. *)
Definition carry_rule (x : list Z) : list Z :=
  let '(x, r) := fold_left carry_step (seq 0 4) (x, replicate 5 0) in
  <[4%nat := x !!! 4%nat mod 2 ^ 52]> r.

Definition multiply (a b : fe) : list Z :=
  carry_rule (map (conv_sum a b) (seq 0 9)).

End Reference.

(** ** Definitions used by the statements and proofs *)

(** Both multipliers end in the same chain of [+=], [>> 52] and [& MASK52];
    [carry_out] names it, so that each can be compared by its accumulators. *)
Definition carry_out (x0 x1 x2 x3 x4 : Z) : fe :=
  let x1 := add128 x1 (Z.shiftr x0 52) in
  let x2 := add128 x2 (Z.shiftr x1 52) in
  let x3 := add128 x3 (Z.shiftr x2 52) in
  let x4 := add128 x4 (Z.shiftr x3 52) in
  mk_fe (u64 (Z.land x0 MASK52)) (u64 (Z.land x1 MASK52)) (u64 (Z.land x2 MASK52))
        (u64 (Z.land x3 MASK52)) (u64 (Z.land x4 MASK52)).

(** The 128-bit operations compute the integer operations up to a multiple of
    2^128, whatever the intermediate values wrap to. *)
Definition cong128 (x y : Z) : Prop := x mod 2 ^ 128 = y mod 2 ^ 128.

(** Every limb at its largest valid value, 2^52 - 1. *)
Definition fe_max : fe := mk_fe MASK52 MASK52 MASK52 MASK52 MASK52.

Definition fe_zero : fe := mk_fe 0 0 0 0 0.
Definition fe_one : fe := mk_fe 1 0 0 0 0.

(** Operands inside [uint64_t] but outside the input invariant, whose limb sum
    [a[0] + a[1]] wraps on 64 bits. *)
Definition fe_wrapping : fe := mk_fe (2 ^ 63) (2 ^ 63) 0 0 0.

(** The limbs both multipliers return on the masked vector. *)
Definition masked_product : fe :=
  mk_fe 0x94f918f48bdf0 0x30eca8641fdba 0xb851eb851eb86 0xfa4fa4fa4fa50 0xd4c3b2a1907f7.

(** The limbs printed in the header of [benchmark.c], least significant
    first. *)
Definition printed_product : fe :=
  mk_fe 0x094f918f48bdf0 0x09abcdf01221fd 0x0ddddddddeefcb 0x041fdb975654b4
        0x00b60b60bca844.

(** ** The accumulators before the carry chain *)

(** The array [tmp] of [fe_mul_schoolbook] after the nine stores
    [tmp[0] = ...] .. [tmp[8] = ...], before the first carry is added. *)
Definition schoolbook_tmp (a b : fe) : list Z :=
  let tmp : list Z := replicate 9 0 in
  let tmp := <[0%nat := mul128 (l0 a) (l0 b)]> tmp in
  let tmp := <[1%nat := add128 (mul128 (l0 a) (l1 b)) (mul128 (l1 a) (l0 b))]> tmp in
  let tmp := <[2%nat := add128 (add128 (mul128 (l0 a) (l2 b)) (mul128 (l1 a) (l1 b)))
                               (mul128 (l2 a) (l0 b))]> tmp in
  let tmp := <[3%nat := add128 (add128 (add128 (mul128 (l0 a) (l3 b)) (mul128 (l1 a) (l2 b)))
                                       (mul128 (l2 a) (l1 b)))
                               (mul128 (l3 a) (l0 b))]> tmp in
  let tmp := <[4%nat := add128 (add128 (add128 (add128 (mul128 (l0 a) (l4 b))
                                                       (mul128 (l1 a) (l3 b)))
                                               (mul128 (l2 a) (l2 b)))
                                       (mul128 (l3 a) (l1 b)))
                               (mul128 (l4 a) (l0 b))]> tmp in
  let tmp := <[5%nat := add128 (add128 (add128 (mul128 (l1 a) (l4 b)) (mul128 (l2 a) (l3 b)))
                                       (mul128 (l3 a) (l2 b)))
                               (mul128 (l4 a) (l1 b))]> tmp in
  let tmp := <[6%nat := add128 (add128 (mul128 (l2 a) (l4 b)) (mul128 (l3 a) (l3 b)))
                               (mul128 (l4 a) (l2 b))]> tmp in
  let tmp := <[7%nat := add128 (mul128 (l3 a) (l4 b)) (mul128 (l4 a) (l3 b))]> tmp in
  let tmp := <[8%nat := mul128 (l4 a) (l4 b)]> tmp in
  tmp.

(** The coefficients [c0] .. [c8] of [fe_mul_karatsuba_opt] as first assigned,
    before the first carry is added. *)
Definition karatsuba_coefficients (a b : fe) : list Z :=
  let p1 := mul128 (l0 a) (l0 b) in
  let p2 := mul128 (add64 (l0 a) (l1 a)) (add64 (l0 b) (l1 b)) in
  let p3 := mul128 (l1 a) (l1 b) in
  let p4 := mul128 (add64 (l0 a) (l2 a)) (add64 (l0 b) (l2 b)) in
  let p5 := mul128 (add64 (add64 (add64 (l0 a) (l1 a)) (l2 a)) (l3 a))
                   (add64 (add64 (add64 (l0 b) (l1 b)) (l2 b)) (l3 b)) in
  let p6 := mul128 (add64 (l1 a) (l3 a)) (add64 (l1 b) (l3 b)) in
  let p7 := mul128 (add64 (add64 (l0 a) (l2 a)) (l4 a))
                   (add64 (add64 (l0 b) (l2 b)) (l4 b)) in
  let p8 := mul128 (l4 a) (l4 b) in
  let p9 := mul128 (add64 (add64 (l1 a) (l3 a)) (l4 a))
                   (add64 (add64 (l1 b) (l3 b)) (l4 b)) in
  let p10 := mul128 (l2 a) (l2 b) in
  let p11 := mul128 (add64 (l2 a) (l3 a)) (add64 (l2 b) (l3 b)) in
  let p12 := mul128 (l3 a) (l3 b) in
  let p13 := mul128 (add64 (l2 a) (l4 a)) (add64 (l2 b) (l4 b)) in
  let p14 := mul128 (add64 (l3 a) (l4 a)) (add64 (l3 b) (l4 b)) in
  let S1 := add128 p1 p3 in
  let S3 := sub128 p10 p8 in
  let c0 := p1 in
  let c1 := sub128 p2 S1 in
  let c2 := sub128 (sub128 (add128 p3 p4) p1) p10 in
  let c3 := add128 (add128 (sub128 (sub128 (sub128 (add128 (sub128 p5 p2) S1) p4) p6) p11)
                           p10) p12 in
  let c4 := sub128 (add128 (sub128 (sub128 (add128 (sub128 p7 p4) p6) p3) p13)
                           (shl128 p10 1)) p12 in
  let c5 := sub128 (sub128 (add128 (sub128 p9 p6) p11) p10) p14 in
  let c6 := sub128 (add128 p13 p12) S3 in
  let c7 := sub128 (sub128 p14 p12) p8 in
  let c8 := p8 in
  [c0; c1; c2; c3; c4; c5; c6; c7; c8].

(** ** The timing loop *)

(** The parameter [void ( *mulfunc)(const fe_limb*, const fe_limb*, fe_limb* )]:
    from the operands and the present contents of [r] to its new contents. *)
Definition mulfunc_t : Type := fe -> fe -> fe -> fe.

Definition call_schoolbook : mulfunc_t := fun a b _ => fe_mul_schoolbook a b.


(** ** The integers that limbs denote *)

(** The value of limbs in radix 2^52, index 0 least significant. *)
Definition limbs_value (x : list Z) : Z :=
  fold_right (fun v acc => v + 2 ^ 52 * acc) 0 x.
Definition fe_value (x : fe) : Z := limbs_value (fe_to_list x).

(** Non-negative limbs whose sums [x[0]+x[1]+x[2]+x[3]] and [x[0]+x[2]+x[4]]
    stay inside [uint64_t]. *)
Definition sums_fit (x : fe) : Prop :=
  (0 <= l0 x /\ 0 <= l1 x /\ 0 <= l2 x /\ 0 <= l3 x /\ 0 <= l4 x) /\
  l0 x + l1 x + l2 x + l3 x < 2 ^ 64 /\
  l0 x + l2 x + l4 x < 2 ^ 64.

(** ** Printing a result *)

Definition hex_alphabet : list ascii :=
  ["0"; "1"; "2"; "3"; "4"; "5"; "6"; "7"; "8"; "9"; "a"; "b"; "c"; "d"; "e"; "f"]%char.

Definition hex_digit (d : Z) : ascii := nth (Z.to_nat d) hex_alphabet "0"%char.

(** The hexadecimal digits of [x], least significant first, none for 0; at
    most [fuel] of them. *)
Fixpoint hex_le (fuel : nat) (x : Z) : list Z :=
  match fuel with
  | O => []
  | S fuel' => if x =? 0 then [] else x mod 16 :: hex_le fuel' (x / 16)
  end.

(** The conversion [%lx] of an [unsigned long] of 64 bits: the digits without
    leading zeros, most significant first, and [0] for zero. *)
Definition fmt_lx (x : Z) : list ascii :=
  match hex_le 16 x with
  | [] => ["0"%char]
  | ds => map hex_digit (rev ds)
  end.

(** The flag [0] with a field width: zeros on the left up to [width]
    characters, nothing cut when the digits are more. *)
Definition pad0 (width : nat) (s : list ascii) : list ascii :=
  replicate (width - length s) "0"%char ++ s.

(** [%014lx] *)
Definition fmt_014lx (x : Z) : list ascii := pad0 14 (fmt_lx x).

(** [void print_fe(const fe_limb *r)]: the characters written to the output by
    [for (int i = 4; i >= 0; i--) printf("%014lx ", r[i]); printf("\n");]. *)
Definition print_fe (r : fe) : list ascii :=
  flat_map (fun i => fmt_014lx (nth i (fe_to_list r) 0) ++ [" "%char]) (rev (seq 0 5))
  ++ ["010"%char].

(** Reading hexadecimal digits back, most significant first. *)
Fixpoint index_of (c : ascii) (l : list ascii) (i : Z) : option Z :=
  match l with
  | [] => None
  | d :: l' => if Ascii.eqb c d then Some i else index_of c l' (i + 1)
  end.

Definition hex_val (c : ascii) : option Z := index_of c hex_alphabet 0.

Definition parse_step (acc : option Z) (c : ascii) : option Z :=
  match acc, hex_val c with
  | Some v, Some d => Some (16 * v + d)
  | _, _ => None
  end.

Definition parse_hex (s : list ascii) : option Z := fold_left parse_step s (Some 0).

(** The value of digits given least significant first. *)
Definition le_value (ds : list Z) : Z := fold_right (fun d acc => d + 16 * acc) 0 ds.

(** The line printed in the header of [benchmark.c] for the arrays of [main]. *)
Definition printed_line : list ascii :=
  [
   "0"; "0"; "b"; "6"; "0"; "b"; "6"; "0"; "b"; "c"; "a"; "8"; "4"; "4"; " ";
   "0"; "4"; "1"; "f"; "d"; "b"; "9"; "7"; "5"; "6"; "5"; "4"; "b"; "4"; " ";
   "0"; "d"; "d"; "d"; "d"; "d"; "d"; "d"; "d"; "e"; "e"; "f"; "c"; "b"; " ";
   "0"; "9"; "a"; "b"; "c"; "d"; "f"; "0"; "1"; "2"; "2"; "1"; "f"; "d"; " ";
   "0"; "9"; "4"; "f"; "9"; "1"; "8"; "f"; "4"; "8"; "b"; "d"; "f"; "0"
  ]%char.

(** * Properties *)

(** ** Masks, shifts and wrap-around *)

Lemma land_MASK52 (x : Z) : Z.land x MASK52 = x mod 2 ^ 52.
Proof. change MASK52 with (Z.ones 52). apply Z.land_ones. lia. Qed.

Lemma shiftr_52 (x : Z) : Z.shiftr x 52 = x / 2 ^ 52.
Proof. apply Z.shiftr_div_pow2. lia. Qed.

Lemma u64_small (x : Z) : 0 <= x < 2 ^ 64 -> u64 x = x.
Proof. intros H. unfold u64. apply Z.mod_small. exact H. Qed.

Lemma u128_small (x : Z) : 0 <= x < 2 ^ 128 -> u128 x = x.
Proof. intros H. unfold u128. apply Z.mod_small. exact H. Qed.

Lemma u128_range (x : Z) : 0 <= u128 x < 2 ^ 128.
Proof. unfold u128. apply Z.mod_pos_bound. lia. Qed.

(** A stored limb [(fe_limb)(x & MASK52)] is [x mod 2^52]. *)
Lemma out_limb_mod (x : Z) : u64 (Z.land x MASK52) = x mod 2 ^ 52.
Proof.
  rewrite land_MASK52. apply u64_small.
  assert (0 <= x mod 2 ^ 52 < 2 ^ 52) by (apply Z.mod_pos_bound; lia). lia.
Qed.

Lemma out_limb_bound (x : Z) : 0 <= u64 (Z.land x MASK52) < 2 ^ 52.
Proof. rewrite out_limb_mod. apply Z.mod_pos_bound. lia. Qed.

(** ** Arithmetic modulo 2^128 *)

Lemma cong128_refl (x : Z) : cong128 x x.
Proof. reflexivity. Qed.

Lemma add128_cong (x y x' y' : Z) :
  cong128 x x' -> cong128 y y' -> cong128 (add128 x y) (x' + y').
Proof.
  unfold cong128, add128, u128. intros Hx Hy.
  rewrite Zmod_mod, Zplus_mod, Hx, Hy, <- Zplus_mod. reflexivity.
Qed.

Lemma sub128_cong (x y x' y' : Z) :
  cong128 x x' -> cong128 y y' -> cong128 (sub128 x y) (x' - y').
Proof.
  unfold cong128, sub128, u128. intros Hx Hy.
  rewrite Zmod_mod, Zminus_mod, Hx, Hy, <- Zminus_mod. reflexivity.
Qed.

Lemma mul128_cong (x y x' y' : Z) :
  cong128 x x' -> cong128 y y' -> cong128 (mul128 x y) (x' * y').
Proof.
  unfold cong128, mul128, u128. intros Hx Hy.
  rewrite Zmod_mod, Zmult_mod, Hx, Hy, <- Zmult_mod. reflexivity.
Qed.

Lemma shl128_1_cong (x x' : Z) : cong128 x x' -> cong128 (shl128 x 1) (2 * x').
Proof.
  unfold cong128, shl128, u128. intros Hx.
  rewrite Zmod_mod, Z.shiftl_mul_pow2 by lia. change (2 ^ 1) with 2.
  rewrite Zmult_mod, Hx, <- Zmult_mod. f_equal. ring.
Qed.

(** Peels the 128-bit operations off the left-hand side, one at a time. *)
Ltac cong128_step :=
  lazymatch goal with
  | |- cong128 (add128 _ _) _ => eapply add128_cong
  | |- cong128 (sub128 _ _) _ => eapply sub128_cong
  | |- cong128 (mul128 _ _) _ => eapply mul128_cong
  | |- cong128 (shl128 _ 1) _ => eapply shl128_1_cong
  | |- cong128 _ _ => apply cong128_refl
  end.

Lemma add128_range (x y : Z) : 0 <= add128 x y < 2 ^ 128.
Proof. apply u128_range. Qed.
Lemma sub128_range (x y : Z) : 0 <= sub128 x y < 2 ^ 128.
Proof. apply u128_range. Qed.
Lemma mul128_range (x y : Z) : 0 <= mul128 x y < 2 ^ 128.
Proof. apply u128_range. Qed.

(** A 128-bit value is the integer it is congruent to, when that fits. *)
Lemma cong128_exact (m e t : Z) :
  cong128 m e -> e = t -> 0 <= m < 2 ^ 128 -> 0 <= t < 2 ^ 128 -> m = t.
Proof.
  unfold cong128. intros Hc <- Hm Ht.
  rewrite <- (Z.mod_small m (2 ^ 128)), <- (Z.mod_small e (2 ^ 128)); assumption.
Qed.

(** ** Limbs below 2^52 *)

Lemma mul_limb_bound (x y : Z) : limb_ok x -> limb_ok y -> 0 <= x * y < 2 ^ 104.
Proof. unfold limb_ok. intros Hx Hy. nia. Qed.

Lemma add64_limbs2 (x y : Z) : limb_ok x -> limb_ok y -> add64 x y = x + y.
Proof. unfold limb_ok, add64. intros Hx Hy. apply u64_small. lia. Qed.

Lemma add64_limbs3 (x y z : Z) :
  limb_ok x -> limb_ok y -> limb_ok z -> add64 (add64 x y) z = x + y + z.
Proof.
  intros Hx Hy Hz. rewrite (add64_limbs2 x y) by assumption.
  unfold limb_ok, add64 in *. apply u64_small. lia.
Qed.

Lemma add64_limbs4 (x y z w : Z) :
  limb_ok x -> limb_ok y -> limb_ok z -> limb_ok w ->
  add64 (add64 (add64 x y) z) w = x + y + z + w.
Proof.
  intros Hx Hy Hz Hw. rewrite (add64_limbs3 x y z) by assumption.
  unfold limb_ok, add64 in *. apply u64_small. lia.
Qed.

(** Bounds on the limb products that occur in the goal. *)
Ltac limb_products :=
  repeat match goal with
         | Hx : limb_ok ?x, Hy : limb_ok ?y |- context [?x * ?y] =>
             lazymatch goal with
             | _ : 0 <= x * y < 2 ^ 104 |- _ => fail
             | _ => pose proof (mul_limb_bound x y Hx Hy)
             end
         end.

(** [m = t] for a 128-bit accumulator [m] and an integer expression [t]. *)
Ltac accumulator_exact :=
  rewrite ?add64_limbs4, ?add64_limbs3, ?add64_limbs2 by assumption;
  eapply cong128_exact;
  [ solve [repeat cong128_step]
  | ring
  | lazymatch goal with
    | |- _ <= add128 _ _ < _ => apply add128_range
    | |- _ <= sub128 _ _ < _ => apply sub128_range
    | |- _ <= mul128 _ _ < _ => apply mul128_range
    end
  | limb_products; lia ].

(** Splitting a valid pair of operands into its limbs. *)
Ltac valid_limbs a b Ha Hb :=
  destruct a as [?a0 ?a1 ?a2 ?a3 ?a4], b as [?b0 ?b1 ?b2 ?b3 ?b4];
  unfold fe_valid in Ha, Hb; cbn [l0 l1 l2 l3 l4] in *;
  destruct Ha as (? & ? & ? & ? & ?), Hb as (? & ? & ? & ? & ?).

(** ** The accumulators are the convolution sums *)

Import Reference.

Lemma schoolbook_accumulators (a b : fe) :
  fe_valid a -> fe_valid b ->
  fe_mul_schoolbook a b =
  carry_out (conv_sum a b 0) (conv_sum a b 1) (conv_sum a b 2)
            (conv_sum a b 3) (conv_sum a b 4).
Proof.
  intros Ha Hb.
  transitivity (carry_out
    (mul128 (l0 a) (l0 b))
    (add128 (mul128 (l0 a) (l1 b)) (mul128 (l1 a) (l0 b)))
    (add128 (add128 (mul128 (l0 a) (l2 b)) (mul128 (l1 a) (l1 b))) (mul128 (l2 a) (l0 b)))
    (add128 (add128 (add128 (mul128 (l0 a) (l3 b)) (mul128 (l1 a) (l2 b)))
                    (mul128 (l2 a) (l1 b))) (mul128 (l3 a) (l0 b)))
    (add128 (add128 (add128 (add128 (mul128 (l0 a) (l4 b)) (mul128 (l1 a) (l3 b)))
                            (mul128 (l2 a) (l2 b))) (mul128 (l3 a) (l1 b)))
            (mul128 (l4 a) (l0 b)))); [reflexivity|].
  valid_limbs a b Ha Hb.
  unfold conv_sum, limb, fe_to_list; cbn [l0 l1 l2 l3 l4 seq map fold_right nth Nat.sub].
  f_equal; accumulator_exact.
Qed.

Lemma carry_out_ext (x0 x1 x2 x3 x4 y0 y1 y2 y3 y4 : Z) :
  x0 = y0 -> x1 = y1 -> x2 = y2 -> x3 = y3 -> x4 = y4 ->
  carry_out x0 x1 x2 x3 x4 = carry_out y0 y1 y2 y3 y4.
Proof. intros -> -> -> -> ->. reflexivity. Qed.

Lemma karatsuba_accumulators (a b : fe) :
  fe_valid a -> fe_valid b ->
  fe_mul_karatsuba_opt a b =
  carry_out (conv_sum a b 0) (conv_sum a b 1) (conv_sum a b 2)
            (conv_sum a b 3) (conv_sum a b 4).
Proof.
  intros Ha Hb. valid_limbs a b Ha Hb.
  unfold conv_sum, limb, fe_to_list; cbn [l0 l1 l2 l3 l4 seq map fold_right nth Nat.sub].
  unfold fe_mul_karatsuba_opt; cbn [l0 l1 l2 l3 l4]; cbv zeta.
  apply carry_out_ext; accumulator_exact.
Qed.

(** ** The carry chain on integers that fit *)

Lemma carry_add_exact (x v : Z) :
  0 <= x < 2 ^ 107 -> 0 <= v < 2 ^ 108 ->
  add128 x (Z.shiftr v 52) = x + v / 2 ^ 52 /\ 0 <= x + v / 2 ^ 52 < 2 ^ 108.
Proof.
  intros Hx Hv. rewrite shiftr_52.
  assert (Hq : 0 <= v / 2 ^ 52 < 2 ^ 56).
  { split; [apply Z.div_pos; lia | apply Z.div_lt_upper_bound; lia]. }
  split; [unfold add128; apply u128_small |]; lia.
Qed.

Lemma carry_rule_cons (x0 x1 x2 x3 x4 : Z) (hi : list Z) :
  carry_rule (x0 :: x1 :: x2 :: x3 :: x4 :: hi) =
  let y1 := x1 + x0 / 2 ^ 52 in
  let y2 := x2 + y1 / 2 ^ 52 in
  let y3 := x3 + y2 / 2 ^ 52 in
  let y4 := x4 + y3 / 2 ^ 52 in
  [x0 mod 2 ^ 52; y1 mod 2 ^ 52; y2 mod 2 ^ 52; y3 mod 2 ^ 52; y4 mod 2 ^ 52].
Proof. reflexivity. Qed.

Lemma carry_out_reference (x0 x1 x2 x3 x4 : Z) (hi : list Z) :
  0 <= x0 < 2 ^ 107 -> 0 <= x1 < 2 ^ 107 -> 0 <= x2 < 2 ^ 107 ->
  0 <= x3 < 2 ^ 107 -> 0 <= x4 < 2 ^ 107 ->
  fe_to_list (carry_out x0 x1 x2 x3 x4) = carry_rule (x0 :: x1 :: x2 :: x3 :: x4 :: hi).
Proof.
  intros H0 H1 H2 H3 H4. rewrite carry_rule_cons. cbv zeta.
  unfold carry_out, fe_to_list; cbn [l0 l1 l2 l3 l4]; cbv zeta.
  rewrite !out_limb_mod.
  destruct (carry_add_exact x1 x0) as [-> B1]; [lia | lia |].
  destruct (carry_add_exact x2 _ H2 B1) as [-> B2].
  destruct (carry_add_exact x3 _ H3 B2) as [-> B3].
  destruct (carry_add_exact x4 _ H4 B3) as [-> B4].
  reflexivity.
Qed.

Lemma conv_sum_bound (a b : fe) (k : nat) :
  fe_valid a -> fe_valid b -> (k <= 4)%nat -> 0 <= conv_sum a b k < 2 ^ 107.
Proof.
  intros Ha Hb Hk. valid_limbs a b Ha Hb.
  assert (Hc : k = 0%nat \/ k = 1%nat \/ k = 2%nat \/ k = 3%nat \/ k = 4%nat) by lia.
  destruct Hc as [-> | [-> | [-> | [-> | ->]]]];
    unfold conv_sum, limb, fe_to_list;
    cbn [l0 l1 l2 l3 l4 seq map fold_right nth Nat.sub];
    limb_products; lia.
Qed.

Ltac valid_closed := unfold fe_valid, limb_ok; vm_compute; repeat split; congruence.

Lemma fe_zero_valid : fe_valid fe_zero.
Proof. valid_closed. Qed.
Lemma fe_one_valid : fe_valid fe_one.
Proof. valid_closed. Qed.

(** ** Every stored limb is masked *)

Lemma carry_out_valid (x0 x1 x2 x3 x4 : Z) : fe_valid (carry_out x0 x1 x2 x3 x4).
Proof.
  unfold fe_valid, limb_ok, carry_out; cbn [l0 l1 l2 l3 l4]; cbv zeta.
  repeat split; apply out_limb_bound.
Qed.

Lemma schoolbook_shape (a b : fe) :
  exists x0 x1 x2 x3 x4, fe_mul_schoolbook a b = carry_out x0 x1 x2 x3 x4.
Proof. do 5 eexists. unfold fe_mul_schoolbook, carry_out. reflexivity. Qed.

Lemma karatsuba_shape (a b : fe) :
  exists x0 x1 x2 x3 x4, fe_mul_karatsuba_opt a b = carry_out x0 x1 x2 x3 x4.
Proof. do 5 eexists. unfold fe_mul_karatsuba_opt, carry_out. reflexivity. Qed.

Lemma schoolbook_valid (a b : fe) : fe_valid (fe_mul_schoolbook a b).
Proof.
  destruct (schoolbook_shape a b) as (x0 & x1 & x2 & x3 & x4 & ->).
  apply carry_out_valid.
Qed.

Lemma karatsuba_valid (a b : fe) : fe_valid (fe_mul_karatsuba_opt a b).
Proof.
  destruct (karatsuba_shape a b) as (x0 & x1 & x2 & x3 & x4 & ->).
  apply carry_out_valid.
Qed.

(** ** Multiplying by zero and by one *)

Lemma limb_zero (i : nat) : limb fe_zero i = 0.
Proof. destruct i as [|[|[|[|[|[|i]]]]]]; reflexivity. Qed.

Lemma conv_sum_zero_l (b : fe) (k : nat) : conv_sum fe_zero b k = 0.
Proof.
  unfold conv_sum. induction (seq 0 (S k)) as [|i rest IH].
  - reflexivity.
  - simpl map. simpl fold_right. rewrite limb_zero, IH. reflexivity.
Qed.

Lemma conv_sum_one_r (a : fe) (k : nat) : (k <= 4)%nat -> conv_sum a fe_one k = limb a k.
Proof.
  intros Hk.
  assert (Hc : k = 0%nat \/ k = 1%nat \/ k = 2%nat \/ k = 3%nat \/ k = 4%nat) by lia.
  destruct a as [a0 a1 a2 a3 a4].
  destruct Hc as [-> | [-> | [-> | [-> | ->]]]];
    unfold conv_sum, limb, fe_to_list, fe_one;
    cbn [l0 l1 l2 l3 l4 seq map fold_right nth Nat.sub]; ring.
Qed.

(** Limbs that are already below 2^52 pass through the carry chain unchanged:
    every carry is zero. *)
Lemma carry_out_limbs (a : fe) :
  fe_valid a -> carry_out (l0 a) (l1 a) (l2 a) (l3 a) (l4 a) = a.
Proof.
  assert (step : forall x v, limb_ok x -> limb_ok v -> add128 x (Z.shiftr v 52) = x).
  { intros x v Hx Hv. rewrite shiftr_52, Z.div_small by exact Hv.
    unfold add128. rewrite Z.add_0_r. apply u128_small. unfold limb_ok in Hx. lia. }
  intros Ha. destruct a as [a0 a1 a2 a3 a4].
  unfold fe_valid in Ha; cbn [l0 l1 l2 l3 l4] in *.
  destruct Ha as (H0 & H1 & H2 & H3 & H4).
  unfold carry_out; cbv zeta.
  rewrite (step a1 a0), (step a2 a1), (step a3 a2), (step a4 a3) by assumption.
  rewrite !out_limb_mod.
  unfold limb_ok in *. rewrite !Z.mod_small by assumption. reflexivity.
Qed.

(** ** The vectors of the harness *)

Example schoolbook_masked_vector :
  fe_mul_schoolbook (fe_mask52 main_a) (fe_mask52 main_b) = masked_product.
Proof. vm_compute. reflexivity. Qed.

Example karatsuba_masked_vector :
  fe_mul_karatsuba_opt (fe_mask52 main_a) (fe_mask52 main_b) = masked_product.
Proof. vm_compute. reflexivity. Qed.

Example schoolbook_main_vector : fe_mul_schoolbook main_a main_b = printed_product.
Proof. vm_compute. reflexivity. Qed.

Example karatsuba_main_vector : fe_mul_karatsuba_opt main_a main_b = printed_product.
Proof. vm_compute. reflexivity. Qed.

Lemma main_a_not_valid : ~ fe_valid main_a.
Proof. intros [[_ H] _]. vm_compute in H. discriminate H. Qed.

Lemma main_b_not_valid : ~ fe_valid main_b.
Proof. intros [[_ H] _]. vm_compute in H. discriminate H. Qed.

(** Outside the input invariant the two multipliers can part: the limb sums
    of the Karatsuba products wrap on 64 bits, the schoolbook products do
    not. *)
Example wrapping_sum_parts_multipliers :
  fe_u64 fe_wrapping /\
  fe_mul_schoolbook fe_wrapping fe_one <> fe_mul_karatsuba_opt fe_wrapping fe_one.
Proof.
  split.
  - unfold fe_u64, fe_to_list, fe_wrapping; cbn [l0 l1 l2 l3 l4].
    repeat (constructor; [lia |]); constructor.
  - vm_compute. discriminate.
Qed.

(** * The claims *)

(** C1. For all operands [a], [b] with every limb below 2^52, the Karatsuba
    multiplier [fe_mul_karatsuba_opt] and the schoolbook multiplier
    [fe_mul_schoolbook] return the same five limbs. *)
Theorem karatsuba_eq_schoolbook (a b : fe) :
  fe_valid a -> fe_valid b -> fe_mul_karatsuba_opt a b = fe_mul_schoolbook a b.
Proof.
  intros Ha Hb.
  rewrite karatsuba_accumulators, schoolbook_accumulators by assumption.
  reflexivity.
Qed.

Lemma karatsuba_eq_schoolbook_witness :
  fe_valid fe_max /\ fe_valid (fe_mask52 main_b) /\
  fe_mul_karatsuba_opt fe_max (fe_mask52 main_b) =
  fe_mul_schoolbook fe_max (fe_mask52 main_b).
Proof.
  split; [valid_closed |]. split; [valid_closed |].
  apply (karatsuba_eq_schoolbook fe_max (fe_mask52 main_b));
    [valid_closed | valid_closed].
Defined.

(** C2. For all operands with every limb below 2^52, [fe_mul_schoolbook]
    returns the limbs of the reference definition: the convolution sums
    [t[k]] over the integers, then [r[i] = t[i] mod 2^52] with
    [floor (t[i] / 2^52)] added into [t[i+1]] for [i = 0 .. 3], and
    [r[4] = t[4] mod 2^52]. *)
Theorem schoolbook_is_reference (a b : fe) :
  fe_valid a -> fe_valid b ->
  fe_to_list (fe_mul_schoolbook a b) = Reference.multiply a b.
Proof.
  intros Ha Hb. rewrite schoolbook_accumulators by assumption.
  unfold Reference.multiply. cbn [seq map].
  apply carry_out_reference; apply conv_sum_bound; auto with arith.
Qed.

Lemma schoolbook_is_reference_witness :
  fe_valid (fe_mask52 main_a) /\ fe_valid fe_max /\
  fe_to_list (fe_mul_schoolbook (fe_mask52 main_a) fe_max) =
  Reference.multiply (fe_mask52 main_a) fe_max.
Proof.
  split; [valid_closed |]. split; [valid_closed |].
  apply (schoolbook_is_reference (fe_mask52 main_a) fe_max);
    [valid_closed | valid_closed].
Defined.

(** C3. For all operands with every limb below 2^52, the output limbs
    [r[0]], [r[1]], [r[2]], [r[3]] of either multiplier are each below
    2^52. *)
Theorem low_limbs_below_2_52 (a b : fe) :
  fe_valid a -> fe_valid b ->
  (l0 (fe_mul_schoolbook a b) < 2 ^ 52 /\ l1 (fe_mul_schoolbook a b) < 2 ^ 52 /\
   l2 (fe_mul_schoolbook a b) < 2 ^ 52 /\ l3 (fe_mul_schoolbook a b) < 2 ^ 52) /\
  (l0 (fe_mul_karatsuba_opt a b) < 2 ^ 52 /\ l1 (fe_mul_karatsuba_opt a b) < 2 ^ 52 /\
   l2 (fe_mul_karatsuba_opt a b) < 2 ^ 52 /\ l3 (fe_mul_karatsuba_opt a b) < 2 ^ 52).
Proof.
  intros _ _.
  pose proof (schoolbook_valid a b) as Hs. pose proof (karatsuba_valid a b) as Hk.
  unfold fe_valid, limb_ok in Hs, Hk. repeat split; lia.
Qed.

Lemma low_limbs_below_2_52_witness :
  fe_valid fe_max /\ fe_valid fe_max /\
  (l0 (fe_mul_schoolbook fe_max fe_max) < 2 ^ 52 /\
   l1 (fe_mul_schoolbook fe_max fe_max) < 2 ^ 52 /\
   l2 (fe_mul_schoolbook fe_max fe_max) < 2 ^ 52 /\
   l3 (fe_mul_schoolbook fe_max fe_max) < 2 ^ 52) /\
  (l0 (fe_mul_karatsuba_opt fe_max fe_max) < 2 ^ 52 /\
   l1 (fe_mul_karatsuba_opt fe_max fe_max) < 2 ^ 52 /\
   l2 (fe_mul_karatsuba_opt fe_max fe_max) < 2 ^ 52 /\
   l3 (fe_mul_karatsuba_opt fe_max fe_max) < 2 ^ 52).
Proof.
  split; [valid_closed |]. split; [valid_closed |].
  apply (low_limbs_below_2_52 fe_max fe_max); valid_closed.
Defined.

(** C4, as stated, fails: no pair of operands with every limb below 2^52
    makes the top output limb [r[4]] of either multiplier reach 2^52. *)
Lemma top_limb_never_reaches_2_52 :
  ~ (exists a b : fe,
        fe_valid a /\ fe_valid b /\
        (2 ^ 52 <= l4 (fe_mul_schoolbook a b) \/
         2 ^ 52 <= l4 (fe_mul_karatsuba_opt a b))).
Proof.
  intros (a & b & _ & _ & H).
  pose proof (schoolbook_valid a b) as Hs. pose proof (karatsuba_valid a b) as Hk.
  unfold fe_valid, limb_ok in Hs, Hk. lia.
Qed.

(** C4, amended. For all operands with every limb below 2^52, the top output
    limb [r[4]] of either multiplier is below 2^52: no carry is propagated out
    of the top limb, and what overflows the top accumulator is masked away
    before the store. *)
Theorem top_limb_masked (a b : fe) :
  fe_valid a -> fe_valid b ->
  l4 (fe_mul_schoolbook a b) < 2 ^ 52 /\ l4 (fe_mul_karatsuba_opt a b) < 2 ^ 52.
Proof.
  intros _ _.
  pose proof (schoolbook_valid a b) as Hs. pose proof (karatsuba_valid a b) as Hk.
  unfold fe_valid, limb_ok in Hs, Hk. split; lia.
Qed.

Lemma top_limb_masked_witness :
  fe_valid fe_max /\ fe_valid fe_max /\
  l4 (fe_mul_schoolbook fe_max fe_max) < 2 ^ 52 /\
  l4 (fe_mul_karatsuba_opt fe_max fe_max) < 2 ^ 52.
Proof.
  split; [valid_closed |]. split; [valid_closed |].
  apply (top_limb_masked fe_max fe_max); valid_closed.
Defined.

(** C5. The unused high-order work does not reach the output: for all
    operands, [fe_mul_karatsuba_opt] without [c5], [c6], [c7], [c8] and the
    carry folded into [c5], and [fe_mul_schoolbook] without [tmp[5..8]],
    return the limbs of the original functions. *)
Theorem high_order_work_is_dead (a b : fe) :
  fe_mul_karatsuba_low a b = fe_mul_karatsuba_opt a b /\
  fe_mul_schoolbook_low a b = fe_mul_schoolbook a b.
Proof.
  split.
  - unfold fe_mul_karatsuba_low, fe_mul_karatsuba_opt. cbv zeta. reflexivity.
  - unfold fe_mul_schoolbook_low, fe_mul_schoolbook. cbv zeta.
    cbn [replicate insert list_insert lookup_total list_lookup_total].
    reflexivity.
Qed.

(** C6. Zero absorption: for every operand [b] with every limb below 2^52,
    both multipliers map [(0,0,0,0,0)] and [b] to [(0,0,0,0,0)]. *)
Theorem zero_absorption (b : fe) :
  fe_valid b ->
  fe_mul_schoolbook fe_zero b = fe_zero /\ fe_mul_karatsuba_opt fe_zero b = fe_zero.
Proof.
  intros Hb.
  rewrite schoolbook_accumulators, karatsuba_accumulators
    by first [exact fe_zero_valid | exact Hb].
  rewrite !conv_sum_zero_l. split; reflexivity.
Qed.

Lemma zero_absorption_witness :
  fe_valid fe_max /\
  fe_mul_schoolbook fe_zero fe_max = fe_zero /\
  fe_mul_karatsuba_opt fe_zero fe_max = fe_zero.
Proof.
  split; [valid_closed |].
  apply (zero_absorption fe_max). valid_closed.
Defined.

(** C7. Identity: for every operand [a] with every limb below 2^52, both
    multipliers map [a] and [(1,0,0,0,0)] to [a], limb for limb. *)
Theorem one_is_identity (a : fe) :
  fe_valid a ->
  fe_mul_schoolbook a fe_one = a /\ fe_mul_karatsuba_opt a fe_one = a.
Proof.
  intros Ha.
  rewrite schoolbook_accumulators, karatsuba_accumulators
    by first [exact fe_one_valid | exact Ha].
  rewrite !conv_sum_one_r by auto with arith.
  split; apply (carry_out_limbs a Ha).
Qed.

Lemma one_is_identity_witness :
  fe_valid (fe_mask52 main_a) /\
  fe_mul_schoolbook (fe_mask52 main_a) fe_one = fe_mask52 main_a /\
  fe_mul_karatsuba_opt (fe_mask52 main_a) fe_one = fe_mask52 main_a.
Proof.
  split; [valid_closed |].
  apply (one_is_identity (fe_mask52 main_a)). valid_closed.
Defined.

(** C8. On the literal vector of the harness, each limb masked to its low 52
    bits, [fe_mul_schoolbook] and [fe_mul_karatsuba_opt] return the same five
    limbs. *)
Theorem masked_vector_agrees :
  fe_mul_schoolbook (fe_mask52 main_a) (fe_mask52 main_b) =
  fe_mul_karatsuba_opt (fe_mask52 main_a) (fe_mask52 main_b).
Proof. rewrite schoolbook_masked_vector, karatsuba_masked_vector. reflexivity. Qed.

(** C9. For all operands with every limb below 2^52, all five output limbs of
    either multiplier, the top limb [r[4]] included, are below 2^52: the top
    accumulator is masked with [MASK52] like the others. *)
Theorem all_limbs_below_2_52 (a b : fe) :
  fe_valid a -> fe_valid b ->
  Forall (fun v => v < 2 ^ 52) (fe_to_list (fe_mul_schoolbook a b)) /\
  Forall (fun v => v < 2 ^ 52) (fe_to_list (fe_mul_karatsuba_opt a b)).
Proof.
  intros _ _.
  pose proof (schoolbook_valid a b) as Hs. pose proof (karatsuba_valid a b) as Hk.
  unfold fe_valid, limb_ok in Hs, Hk. unfold fe_to_list.
  split; repeat (constructor; [lia |]); constructor.
Qed.

Lemma all_limbs_below_2_52_witness :
  fe_valid fe_max /\ fe_valid fe_max /\
  Forall (fun v => v < 2 ^ 52) (fe_to_list (fe_mul_schoolbook fe_max fe_max)) /\
  Forall (fun v => v < 2 ^ 52) (fe_to_list (fe_mul_karatsuba_opt fe_max fe_max)).
Proof.
  split; [valid_closed |]. split; [valid_closed |].
  apply (all_limbs_below_2_52 fe_max fe_max); valid_closed.
Defined.

(** C10. On the arrays of [main] as written (64-bit constants, not masked,
    outside the input invariant) [fe_mul_schoolbook] and
    [fe_mul_karatsuba_opt] still return the same five limbs, and the
    comparison of the harness succeeds. *)
Theorem main_vector_agrees :
  ~ fe_valid main_a /\ ~ fe_valid main_b /\
  fe_u64 main_a /\ fe_u64 main_b /\
  fe_mul_schoolbook main_a main_b = fe_mul_karatsuba_opt main_a main_b /\
  main_ok = true.
Proof.
  split; [exact main_a_not_valid |]. split; [exact main_b_not_valid |].
  split; [unfold fe_u64, fe_to_list, main_a; cbn [l0 l1 l2 l3 l4]; repeat (constructor; [lia |]); constructor |].
  split; [unfold fe_u64, fe_to_list, main_b; cbn [l0 l1 l2 l3 l4]; repeat (constructor; [lia |]); constructor |].
  split.
  - rewrite schoolbook_main_vector, karatsuba_main_vector. reflexivity.
  - vm_compute. reflexivity.
Qed.

(** * Further properties of the multipliers *)

(** ** Accumulators that agree modulo 2^128 *)

Lemma cong128_both (m m' e e' : Z) :
  cong128 m e -> cong128 m' e' -> e = e' ->
  0 <= m < 2 ^ 128 -> 0 <= m' < 2 ^ 128 -> m = m'.
Proof.
  unfold cong128. intros Hm Hm' <- Rm Rm'.
  rewrite <- (Z.mod_small m (2 ^ 128)), <- (Z.mod_small m' (2 ^ 128)) by assumption.
  congruence.
Qed.

Ltac range128 :=
  lazymatch goal with
  | |- _ <= add128 _ _ < _ => apply add128_range
  | |- _ <= sub128 _ _ < _ => apply sub128_range
  | |- _ <= mul128 _ _ < _ => apply mul128_range
  end.

Ltac list_cells :=
  cbn [replicate insert list_insert lookup_total list_lookup_total l0 l1 l2 l3 l4].

(** [m = m'] for two 128-bit accumulators with the same integer expression. *)
Ltac accumulators_agree :=
  eapply cong128_both;
  [ solve [repeat cong128_step] | solve [repeat cong128_step] | ring
  | range128 | range128 ].

Lemma schoolbook_carry_out (a b : fe) :
  fe_mul_schoolbook a b =
  carry_out (schoolbook_tmp a b !!! 0%nat) (schoolbook_tmp a b !!! 1%nat)
            (schoolbook_tmp a b !!! 2%nat) (schoolbook_tmp a b !!! 3%nat)
            (schoolbook_tmp a b !!! 4%nat).
Proof.
  unfold fe_mul_schoolbook, schoolbook_tmp, carry_out; cbv zeta; list_cells.
  reflexivity.
Qed.

Lemma karatsuba_carry_out (a b : fe) :
  fe_mul_karatsuba_opt a b =
  carry_out (karatsuba_coefficients a b !!! 0%nat) (karatsuba_coefficients a b !!! 1%nat)
            (karatsuba_coefficients a b !!! 2%nat) (karatsuba_coefficients a b !!! 3%nat)
            (karatsuba_coefficients a b !!! 4%nat).
Proof.
  unfold fe_mul_karatsuba_opt, karatsuba_coefficients, carry_out; cbv zeta; list_cells.
  reflexivity.
Qed.

Lemma schoolbook_comm (a b : fe) : fe_mul_schoolbook a b = fe_mul_schoolbook b a.
Proof.
  rewrite (schoolbook_carry_out a b), (schoolbook_carry_out b a).
  unfold schoolbook_tmp; cbv zeta; list_cells.
  apply carry_out_ext; accumulators_agree.
Qed.

Lemma karatsuba_comm (a b : fe) : fe_mul_karatsuba_opt a b = fe_mul_karatsuba_opt b a.
Proof.
  rewrite (karatsuba_carry_out a b), (karatsuba_carry_out b a).
  unfold karatsuba_coefficients; cbv zeta; list_cells.
  apply carry_out_ext; accumulators_agree.
Qed.

(** ** Limb sums that stay inside 64 bits *)

Lemma add64_fit2 (x y : Z) : 0 <= x -> 0 <= y -> x + y < 2 ^ 64 -> add64 x y = x + y.
Proof. intros Hx Hy H. unfold add64. apply u64_small. lia. Qed.

Lemma add64_fit3 (x y z : Z) :
  0 <= x -> 0 <= y -> 0 <= z -> x + y + z < 2 ^ 64 -> add64 (add64 x y) z = x + y + z.
Proof.
  intros Hx Hy Hz H. rewrite (add64_fit2 x y) by lia. apply add64_fit2; lia.
Qed.

Lemma add64_fit4 (x y z w : Z) :
  0 <= x -> 0 <= y -> 0 <= z -> 0 <= w -> x + y + z + w < 2 ^ 64 ->
  add64 (add64 (add64 x y) z) w = x + y + z + w.
Proof.
  intros Hx Hy Hz Hw H. rewrite (add64_fit3 x y z) by lia. apply add64_fit2; lia.
Qed.

Lemma valid_sums_fit (x : fe) : fe_valid x -> sums_fit x.
Proof. unfold fe_valid, sums_fit, limb_ok. intros H. repeat split; lia. Qed.

(** ** Values of limb lists *)

Lemma limbs_value_cons (v : Z) (x : list Z) :
  limbs_value (v :: x) = v + 2 ^ 52 * limbs_value x.
Proof. reflexivity. Qed.

Lemma limbs_value_inj (x y : list Z) :
  Forall limb_ok x -> Forall limb_ok y -> length x = length y ->
  limbs_value x = limbs_value y -> x = y.
Proof.
  intros Hx. revert y. induction Hx as [|v x Hv Hx IH]; intros y Hy Hlen Heq.
  - destruct y; [reflexivity | discriminate Hlen].
  - destruct Hy as [|w y Hw Hy]; [discriminate Hlen |].
    rewrite !limbs_value_cons in Heq. unfold limb_ok in Hv, Hw.
    assert (Hvw : v = w).
    { rewrite <- (Z.mod_small v (2 ^ 52)), <- (Z.mod_small w (2 ^ 52)) by assumption.
      replace v with (v + limbs_value x * 2 ^ 52 - limbs_value x * 2 ^ 52) at 1 by ring.
      replace (v + limbs_value x * 2 ^ 52) with (w + limbs_value y * 2 ^ 52) by lia.
      replace (w + limbs_value y * 2 ^ 52 - limbs_value x * 2 ^ 52)
        with (w + (limbs_value y - limbs_value x) * 2 ^ 52) by ring.
      apply Z_mod_plus_full. }
    subst w. f_equal. apply IH; [assumption | | lia].
    simpl in Hlen. congruence.
Qed.

Lemma fe_value_inj (x y : fe) : fe_valid x -> fe_valid y -> fe_value x = fe_value y -> x = y.
Proof.
  intros Hx Hy Heq.
  assert (Hl : fe_to_list x = fe_to_list y).
  { apply limbs_value_inj; [| | reflexivity | exact Heq];
      unfold fe_valid in *; unfold fe_to_list;
      repeat (constructor; [tauto |]); constructor. }
  destruct x, y. unfold fe_to_list in Hl; cbn [l0 l1 l2 l3 l4] in Hl. congruence.
Qed.

(** The carry chain keeps the value of its accumulators modulo 2^260. *)
Lemma carry_out_value (x0 x1 x2 x3 x4 : Z) :
  0 <= x0 < 2 ^ 107 -> 0 <= x1 < 2 ^ 107 -> 0 <= x2 < 2 ^ 107 ->
  0 <= x3 < 2 ^ 107 -> 0 <= x4 < 2 ^ 107 ->
  fe_value (carry_out x0 x1 x2 x3 x4) = limbs_value [x0; x1; x2; x3; x4] mod 2 ^ 260.
Proof.
  intros H0 H1 H2 H3 H4.
  unfold fe_value, carry_out, fe_to_list; cbn [l0 l1 l2 l3 l4]; cbv zeta.
  rewrite !out_limb_mod.
  destruct (carry_add_exact x1 x0) as [-> B1]; [lia | lia |].
  destruct (carry_add_exact x2 _ H2 B1) as [-> B2].
  destruct (carry_add_exact x3 _ H3 B2) as [-> B3].
  destruct (carry_add_exact x4 _ H4 B3) as [-> B4].
  set (y1 := x1 + x0 / 2 ^ 52) in *. set (y2 := x2 + y1 / 2 ^ 52) in *.
  set (y3 := x3 + y2 / 2 ^ 52) in *. set (y4 := x4 + y3 / 2 ^ 52) in *.
  rewrite !limbs_value_cons. change (limbs_value []) with 0.
  pose proof (Z.div_mod x0 (2 ^ 52) ltac:(lia)) as E0.
  pose proof (Z.div_mod y1 (2 ^ 52) ltac:(lia)) as E1.
  pose proof (Z.div_mod y2 (2 ^ 52) ltac:(lia)) as E2.
  pose proof (Z.div_mod y3 (2 ^ 52) ltac:(lia)) as E3.
  pose proof (Z.div_mod y4 (2 ^ 52) ltac:(lia)) as E4.
  pose proof (Z.mod_pos_bound x0 (2 ^ 52) ltac:(lia)) as R0.
  pose proof (Z.mod_pos_bound y1 (2 ^ 52) ltac:(lia)) as R1.
  pose proof (Z.mod_pos_bound y2 (2 ^ 52) ltac:(lia)) as R2.
  pose proof (Z.mod_pos_bound y3 (2 ^ 52) ltac:(lia)) as R3.
  pose proof (Z.mod_pos_bound y4 (2 ^ 52) ltac:(lia)) as R4.
  apply Z.mod_unique_pos with (q := y4 / 2 ^ 52);
    set (q0 := x0 / 2 ^ 52) in *; set (r0 := x0 mod 2 ^ 52) in *;
    set (q1 := y1 / 2 ^ 52) in *; set (r1 := y1 mod 2 ^ 52) in *;
    set (q2 := y2 / 2 ^ 52) in *; set (r2 := y2 mod 2 ^ 52) in *;
    set (q3 := y3 / 2 ^ 52) in *; set (r3 := y3 mod 2 ^ 52) in *;
    set (q4 := y4 / 2 ^ 52) in *; set (r4 := y4 mod 2 ^ 52) in *;
    clearbody q0 r0 q1 r1 q2 r2 q3 r3 q4 r4; subst y4 y3 y2 y1; lia.
Qed.

(** ** All nine accumulators *)

Ltac conv_sums :=
  unfold conv_sum, limb, fe_to_list;
  cbn [l0 l1 l2 l3 l4 seq map fold_right nth Nat.sub].

Lemma schoolbook_tmp_conv (a b : fe) :
  fe_valid a -> fe_valid b -> schoolbook_tmp a b = map (conv_sum a b) (seq 0 9).
Proof.
  intros Ha Hb. valid_limbs a b Ha Hb.
  unfold schoolbook_tmp; cbv zeta; list_cells. cbn [seq map]. conv_sums.
  repeat (apply (f_equal2 cons); [accumulator_exact |]). reflexivity.
Qed.

Lemma karatsuba_coefficients_conv (a b : fe) :
  fe_valid a -> fe_valid b ->
  karatsuba_coefficients a b =
  <[6%nat := conv_sum a b 6 + 2 * (l4 a * l4 b)]> (map (conv_sum a b) (seq 0 9)).
Proof.
  intros Ha Hb. valid_limbs a b Ha Hb.
  unfold karatsuba_coefficients; cbv zeta. cbn [seq map]. list_cells. conv_sums.
  repeat (apply (f_equal2 cons); [accumulator_exact |]). reflexivity.
Qed.

(** The product of the values, split at 2^260. *)
Lemma conv_sums_value (a b : fe) :
  limbs_value (map (conv_sum a b) (seq 0 9)) = fe_value a * fe_value b.
Proof.
  destruct a as [a0 a1 a2 a3 a4], b as [b0 b1 b2 b3 b4].
  unfold fe_value. cbn [seq map]. conv_sums.
  rewrite !limbs_value_cons. change (limbs_value []) with 0. ring.
Qed.

Lemma low_conv_sums_value (a b : fe) :
  limbs_value [conv_sum a b 0; conv_sum a b 1; conv_sum a b 2; conv_sum a b 3;
               conv_sum a b 4] mod 2 ^ 260 =
  (fe_value a * fe_value b) mod 2 ^ 260.
Proof.
  rewrite <- conv_sums_value. cbn [seq map]. rewrite !limbs_value_cons.
  change (limbs_value []) with 0.
  set (hi := conv_sum a b 5 + 2 ^ 52 * (conv_sum a b 6 + 2 ^ 52 *
               (conv_sum a b 7 + 2 ^ 52 * (conv_sum a b 8 + 2 ^ 52 * 0)))).
  rewrite <- (Z_mod_plus_full _ hi (2 ^ 260)). f_equal. ring.
Qed.

Lemma schoolbook_value (a b : fe) :
  fe_valid a -> fe_valid b ->
  fe_value (fe_mul_schoolbook a b) = (fe_value a * fe_value b) mod 2 ^ 260.
Proof.
  intros Ha Hb. rewrite schoolbook_accumulators by assumption.
  rewrite carry_out_value by (apply conv_sum_bound; auto with arith).
  apply low_conv_sums_value.
Qed.

Lemma karatsuba_value (a b : fe) :
  fe_valid a -> fe_valid b ->
  fe_value (fe_mul_karatsuba_opt a b) = (fe_value a * fe_value b) mod 2 ^ 260.
Proof.
  intros Ha Hb. rewrite karatsuba_accumulators by assumption.
  rewrite carry_out_value by (apply conv_sum_bound; auto with arith).
  apply low_conv_sums_value.
Qed.

(** * Further theorems *)

(** X1. For operands with every limb below 2^52, the five limbs returned by
    either multiplier denote, in radix 2^52, the product of the integers the
    operands denote, reduced modulo 2^260. *)
Theorem product_mod_2_260 (a b : fe) :
  fe_valid a -> fe_valid b ->
  fe_value (fe_mul_schoolbook a b) = (fe_value a * fe_value b) mod 2 ^ 260 /\
  fe_value (fe_mul_karatsuba_opt a b) = (fe_value a * fe_value b) mod 2 ^ 260.
Proof.
  intros Ha Hb. split; [apply schoolbook_value | apply karatsuba_value]; assumption.
Qed.

Lemma product_mod_2_260_witness :
  fe_valid fe_max /\ fe_valid (fe_mask52 main_b) /\
  fe_value (fe_mul_schoolbook fe_max (fe_mask52 main_b)) =
    (fe_value fe_max * fe_value (fe_mask52 main_b)) mod 2 ^ 260 /\
  fe_value (fe_mul_karatsuba_opt fe_max (fe_mask52 main_b)) =
    (fe_value fe_max * fe_value (fe_mask52 main_b)) mod 2 ^ 260.
Proof.
  split; [valid_closed |]. split; [valid_closed |].
  apply (product_mod_2_260 fe_max (fe_mask52 main_b)); valid_closed.
Defined.

(** X2. Both multipliers are commutative, for all operands, also outside the
    input invariant. *)
Theorem multipliers_commute (a b : fe) :
  fe_mul_schoolbook a b = fe_mul_schoolbook b a /\
  fe_mul_karatsuba_opt a b = fe_mul_karatsuba_opt b a.
Proof. split; [apply schoolbook_comm | apply karatsuba_comm]. Qed.

(** X3. Both multipliers are associative on operands with every limb below
    2^52: a result can be fed back as an operand, and the order of two
    multiplications does not matter. *)
Theorem multipliers_associate (a b c : fe) :
  fe_valid a -> fe_valid b -> fe_valid c ->
  fe_mul_schoolbook (fe_mul_schoolbook a b) c =
    fe_mul_schoolbook a (fe_mul_schoolbook b c) /\
  fe_mul_karatsuba_opt (fe_mul_karatsuba_opt a b) c =
    fe_mul_karatsuba_opt a (fe_mul_karatsuba_opt b c).
Proof.
  intros Ha Hb Hc. split.
  - apply fe_value_inj; try apply schoolbook_valid.
    rewrite !schoolbook_value by (try apply schoolbook_valid; assumption).
    rewrite Z.mul_mod_idemp_l, Z.mul_mod_idemp_r by lia. f_equal. ring.
  - apply fe_value_inj; try apply karatsuba_valid.
    rewrite !karatsuba_value by (try apply karatsuba_valid; assumption).
    rewrite Z.mul_mod_idemp_l, Z.mul_mod_idemp_r by lia. f_equal. ring.
Qed.

Lemma multipliers_associate_witness :
  fe_valid fe_max /\ fe_valid (fe_mask52 main_a) /\ fe_valid (fe_mask52 main_b) /\
  fe_mul_schoolbook (fe_mul_schoolbook fe_max (fe_mask52 main_a)) (fe_mask52 main_b) =
    fe_mul_schoolbook fe_max (fe_mul_schoolbook (fe_mask52 main_a) (fe_mask52 main_b)) /\
  fe_mul_karatsuba_opt (fe_mul_karatsuba_opt fe_max (fe_mask52 main_a)) (fe_mask52 main_b) =
    fe_mul_karatsuba_opt fe_max
      (fe_mul_karatsuba_opt (fe_mask52 main_a) (fe_mask52 main_b)).
Proof.
  split; [valid_closed |]. split; [valid_closed |]. split; [valid_closed |].
  apply (multipliers_associate fe_max (fe_mask52 main_a) (fe_mask52 main_b)); valid_closed.
Defined.

(** X4. The multipliers agree whenever the limbs are non-negative and the two
    limb sums [x[0]+x[1]+x[2]+x[3]] and [x[0]+x[2]+x[4]] of each operand stay
    below 2^64; limbs below 2^52 are a special case, and so are the arrays of
    [main] as written. *)
Theorem multipliers_agree_when_sums_fit (a b : fe) :
  sums_fit a -> sums_fit b -> fe_mul_karatsuba_opt a b = fe_mul_schoolbook a b.
Proof.
  intros Ha Hb.
  rewrite (karatsuba_carry_out a b), (schoolbook_carry_out a b).
  destruct a as [a0 a1 a2 a3 a4], b as [b0 b1 b2 b3 b4].
  unfold sums_fit in Ha, Hb; cbn [l0 l1 l2 l3 l4] in Ha, Hb.
  destruct Ha as ((? & ? & ? & ? & ?) & ? & ?), Hb as ((? & ? & ? & ? & ?) & ? & ?).
  unfold karatsuba_coefficients, schoolbook_tmp; cbv zeta; list_cells.
  rewrite ?add64_fit4, ?add64_fit3, ?add64_fit2 by lia.
  apply carry_out_ext; accumulators_agree.
Qed.

Lemma multipliers_agree_when_sums_fit_witness :
  sums_fit main_a /\ sums_fit main_b /\
  fe_mul_karatsuba_opt main_a main_b = fe_mul_schoolbook main_a main_b.
Proof.
  assert (Ha : sums_fit main_a) by (unfold sums_fit, main_a; cbn [l0 l1 l2 l3 l4]; lia).
  assert (Hb : sums_fit main_b) by (unfold sums_fit, main_b; cbn [l0 l1 l2 l3 l4]; lia).
  split; [exact Ha |]. split; [exact Hb |].
  apply (multipliers_agree_when_sums_fit main_a main_b); assumption.
Defined.

(** X5. For operands with every limb below 2^52, the array [tmp] of
    [fe_mul_schoolbook] holds, before the carries, the nine convolution sums
    without wrap-around; in radix 2^52 it denotes the whole product of the
    operands, high half included. *)
Theorem schoolbook_tmp_full_product (a b : fe) :
  fe_valid a -> fe_valid b ->
  schoolbook_tmp a b = map (conv_sum a b) (seq 0 9) /\
  limbs_value (schoolbook_tmp a b) = fe_value a * fe_value b.
Proof.
  intros Ha Hb. rewrite schoolbook_tmp_conv by assumption.
  split; [reflexivity | apply conv_sums_value].
Qed.

Lemma schoolbook_tmp_full_product_witness :
  fe_valid fe_max /\ fe_valid fe_max /\
  schoolbook_tmp fe_max fe_max = map (conv_sum fe_max fe_max) (seq 0 9) /\
  limbs_value (schoolbook_tmp fe_max fe_max) = fe_value fe_max * fe_value fe_max.
Proof.
  split; [valid_closed |]. split; [valid_closed |].
  apply (schoolbook_tmp_full_product fe_max fe_max); valid_closed.
Defined.

(** X6. For operands with every limb below 2^52, the coefficients [c0] ..
    [c5], [c7] and [c8] of [fe_mul_karatsuba_opt] are the convolution sums,
    but [c6] is the convolution sum plus [2 * a[4] * b[4]]: the nine
    coefficients denote the product of the operands plus
    [2^313 * a[4] * b[4]]. *)
Theorem karatsuba_c6_exceeds (a b : fe) :
  fe_valid a -> fe_valid b ->
  karatsuba_coefficients a b =
    <[6%nat := conv_sum a b 6 + 2 * (l4 a * l4 b)]> (map (conv_sum a b) (seq 0 9)) /\
  limbs_value (karatsuba_coefficients a b) =
    fe_value a * fe_value b + 2 ^ 313 * (l4 a * l4 b).
Proof.
  intros Ha Hb. rewrite karatsuba_coefficients_conv by assumption.
  split; [reflexivity |].
  rewrite <- conv_sums_value. cbn [seq map]. list_cells.
  rewrite !limbs_value_cons. change (limbs_value []) with 0. ring.
Qed.

Lemma karatsuba_c6_exceeds_witness :
  fe_valid fe_max /\ fe_valid fe_max /\
  karatsuba_coefficients fe_max fe_max =
    <[6%nat := conv_sum fe_max fe_max 6 + 2 * (l4 fe_max * l4 fe_max)]>
      (map (conv_sum fe_max fe_max) (seq 0 9)) /\
  limbs_value (karatsuba_coefficients fe_max fe_max) =
    fe_value fe_max * fe_value fe_max + 2 ^ 313 * (l4 fe_max * l4 fe_max).
Proof.
  split; [valid_closed |]. split; [valid_closed |].
  apply (karatsuba_c6_exceeds fe_max fe_max); valid_closed.
Defined.

(** X7. The comparison loop of [main] yields [ok = 1] exactly when the two
    results are equal in all five limbs. *)
Theorem results_equal_iff (r1 r2 : fe) : results_equal r1 r2 = true <-> r1 = r2.
Proof.
  destruct r1 as [x0 x1 x2 x3 x4], r2 as [y0 y1 y2 y3 y4].
  unfold results_equal, fe_to_list; cbn [seq fold_left nth l0 l1 l2 l3 l4].
  destruct (Z.eqb_spec x0 y0), (Z.eqb_spec x1 y1), (Z.eqb_spec x2 y2),
    (Z.eqb_spec x3 y3), (Z.eqb_spec x4 y4); cbn [negb];
    split; intros H; try discriminate H; try congruence.
Qed.



(** * Properties of the printer *)

Example print_fe_main_vector :
  print_fe (fe_mul_karatsuba_opt main_a main_b) = printed_line ++ [" "; "010"]%char.
Proof. vm_compute. reflexivity. Qed.

(** ** Digits *)

Lemma hex_val_digit (d : Z) : 0 <= d < 16 -> hex_val (hex_digit d) = Some d.
Proof.
  intros H. rewrite <- (Z2Nat.id d) at 2 by lia. unfold hex_digit.
  assert (Hn : (Z.to_nat d < 16)%nat) by lia. revert Hn.
  generalize (Z.to_nat d). intros n Hn.
  do 16 (destruct n as [|n]; [reflexivity |]). lia.
Qed.

Lemma hex_digit_not_space (d : Z) : hex_digit d <> " "%char.
Proof.
  unfold hex_digit. generalize (Z.to_nat d). intros n.
  do 16 (destruct n as [|n]; [discriminate |]). destruct n; discriminate.
Qed.

Lemma le_value_cons (d : Z) (ds : list Z) : le_value (d :: ds) = d + 16 * le_value ds.
Proof. reflexivity. Qed.

Lemma pow16_succ (k : nat) : 16 ^ Z.of_nat (S k) = 16 * 16 ^ Z.of_nat k.
Proof. rewrite Nat2Z.inj_succ, Z.pow_succ_r by lia. reflexivity. Qed.

Lemma pow16_pos (k : nat) : 0 < 16 ^ Z.of_nat k.
Proof. apply Z.pow_pos_nonneg; lia. Qed.

Lemma hex_le_digits (fuel : nat) (x : Z) :
  0 <= x -> Forall (fun d => 0 <= d < 16) (hex_le fuel x).
Proof.
  revert x. induction fuel as [|fuel IH]; intros x Hx; cbn [hex_le].
  - constructor.
  - destruct (x =? 0); constructor.
    + apply Z.mod_pos_bound. lia.
    + apply IH. apply Z.div_pos; lia.
Qed.

(** With enough fuel the digits are all there. *)
Lemma hex_le_value (fuel : nat) (x : Z) :
  0 <= x < 16 ^ Z.of_nat fuel -> le_value (hex_le fuel x) = x.
Proof.
  revert x. induction fuel as [|fuel IH]; intros x Hx.
  - change (16 ^ Z.of_nat 0) with 1 in Hx. cbn [hex_le]. unfold le_value; cbn. lia.
  - cbn [hex_le]. destruct (Z.eqb_spec x 0) as [-> | Hne]; [reflexivity |].
    rewrite le_value_cons, IH.
    + pose proof (Z.div_mod x 16 ltac:(lia)). lia.
    + rewrite pow16_succ in Hx. split; [apply Z.div_pos; lia |].
      apply Z.div_lt_upper_bound; lia.
Qed.

Lemma hex_le_length_le (fuel k : nat) (x : Z) :
  0 <= x < 16 ^ Z.of_nat k -> (length (hex_le fuel x) <= k)%nat.
Proof.
  revert fuel x. induction k as [|k IH]; intros fuel x Hx.
  - change (16 ^ Z.of_nat 0) with 1 in Hx.
    destruct fuel; cbn [hex_le]; [cbn; lia |].
    replace (x =? 0) with true by (symmetry; apply Z.eqb_eq; lia). cbn; lia.
  - destruct fuel; cbn [hex_le]; [cbn; lia |].
    destruct (Z.eqb_spec x 0); [cbn; lia |]. cbn [length].
    rewrite pow16_succ in Hx.
    assert (0 <= x / 16 < 16 ^ Z.of_nat k).
    { split; [apply Z.div_pos; lia | apply Z.div_lt_upper_bound; lia]. }
    specialize (IH fuel (x / 16)). lia.
Qed.

Lemma hex_le_length_gt (fuel k : nat) (x : Z) :
  16 ^ Z.of_nat k <= x -> (k < fuel)%nat -> (k < length (hex_le fuel x))%nat.
Proof.
  revert fuel x. induction k as [|k IH]; intros fuel x Hx Hf.
  - change (16 ^ Z.of_nat 0) with 1 in Hx.
    destruct fuel; [lia |]. cbn [hex_le].
    destruct (Z.eqb_spec x 0); [lia |]. cbn [length]. lia.
  - destruct fuel; [lia |]. cbn [hex_le].
    pose proof (pow16_pos (S k)).
    destruct (Z.eqb_spec x 0); [lia |]. cbn [length].
    rewrite pow16_succ in Hx.
    assert (16 ^ Z.of_nat k <= x / 16) by (apply Z.div_le_lower_bound; lia).
    specialize (IH fuel (x / 16)). lia.
Qed.

(** ** Fields *)

Lemma fmt_lx_length (x : Z) : length (fmt_lx x) = Nat.max 1 (length (hex_le 16 x)).
Proof.
  unfold fmt_lx. destruct (hex_le 16 x) as [|d ds]; [reflexivity |].
  rewrite length_map, length_rev. cbn [length]. lia.
Qed.

Lemma pad0_length (w : nat) (s : list ascii) : length (pad0 w s) = Nat.max w (length s).
Proof. unfold pad0. rewrite length_app, length_replicate. lia. Qed.

Lemma parse_zeros (n : nat) :
  fold_left parse_step (replicate n "0"%char) (Some 0) = Some 0.
Proof. induction n as [|n IH]; [reflexivity | exact IH]. Qed.

Lemma parse_digits (ds : list Z) (acc : Z) :
  Forall (fun d => 0 <= d < 16) ds ->
  fold_left parse_step (map hex_digit (rev ds)) (Some acc) =
  Some (acc * 16 ^ Z.of_nat (length ds) + le_value ds).
Proof.
  induction 1 as [|d ds Hd Hds IH].
  - cbn. f_equal. unfold le_value; cbn. lia.
  - cbn [rev]. rewrite map_app, fold_left_app, IH. cbn [map fold_left].
    unfold parse_step. rewrite (hex_val_digit d Hd). f_equal.
    cbn [length]. rewrite pow16_succ, le_value_cons. ring.
Qed.

Lemma fmt_014lx_parse (x : Z) : 0 <= x < 2 ^ 64 -> parse_hex (fmt_014lx x) = Some x.
Proof.
  intros Hx. unfold parse_hex, fmt_014lx, pad0.
  rewrite fold_left_app, parse_zeros.
  pose proof (hex_le_value 16 x Hx) as Hv.
  pose proof (hex_le_digits 16 x ltac:(lia)) as Hd.
  unfold fmt_lx. destruct (hex_le 16 x) as [|d ds] eqn:E.
  - change (le_value []) with 0 in Hv. subst x. reflexivity.
  - rewrite (parse_digits (d :: ds) 0 Hd). f_equal. lia.
Qed.

Lemma fmt_014lx_no_space (x : Z) : Forall (fun c => c <> " "%char) (fmt_014lx x).
Proof.
  unfold fmt_014lx, pad0. apply Forall_app. split.
  - generalize (14 - length (fmt_lx x))%nat. intros n.
    induction n as [|n IH]; constructor; [discriminate | exact IH].
  - unfold fmt_lx. destruct (hex_le 16 x) as [|d ds].
    + repeat constructor. discriminate.
    + generalize (rev (d :: ds)). intros es.
      induction es as [|e es IH]; constructor;
        [apply hex_digit_not_space | exact IH].
Qed.

Lemma fmt_014lx_length (x : Z) :
  length (fmt_014lx x) = Nat.max 14 (length (hex_le 16 x)).
Proof. unfold fmt_014lx. rewrite pad0_length, fmt_lx_length. lia. Qed.

(** ** Lines *)

Lemma print_fe_fields (r : fe) :
  print_fe r =
  fmt_014lx (l4 r) ++ " "%char :: fmt_014lx (l3 r) ++ " "%char ::
  fmt_014lx (l2 r) ++ " "%char :: fmt_014lx (l1 r) ++ " "%char ::
  fmt_014lx (l0 r) ++ [" "; "010"]%char.
Proof.
  unfold print_fe. change (rev (seq 0 5)) with [4; 3; 2; 1; 0]%nat.
  unfold fe_to_list. cbn [flat_map nth]. rewrite <- !app_assoc. reflexivity.
Qed.

Lemma field_split (f f' t t' : list ascii) :
  Forall (fun c => c <> " "%char) f -> Forall (fun c => c <> " "%char) f' ->
  f ++ " "%char :: t = f' ++ " "%char :: t' -> f = f' /\ t = t'.
Proof.
  intros Hf. revert f'. induction Hf as [|c f Hc Hf IH]; intros f' Hf' E.
  - destruct Hf' as [|c' f' Hc' Hf']; cbn [app] in E.
    + split; congruence.
    + injection E as E1 E2. congruence.
  - destruct Hf' as [|c' f' Hc' Hf']; cbn [app] in E.
    + injection E as E1 E2. congruence.
    + injection E as E1 E2. destruct (IH f' Hf' E2) as [-> ->]. split; congruence.
Qed.

Lemma fmt_014lx_inj (x y : Z) :
  0 <= x < 2 ^ 64 -> 0 <= y < 2 ^ 64 -> fmt_014lx x = fmt_014lx y -> x = y.
Proof.
  intros Hx Hy E. apply (f_equal parse_hex) in E.
  rewrite !fmt_014lx_parse in E by assumption. congruence.
Qed.

Lemma fmt_014lx_width_14 (x : Z) : 0 <= x < 2 ^ 56 -> length (fmt_014lx x) = 14%nat.
Proof.
  intros Hx. rewrite fmt_014lx_length.
  pose proof (hex_le_length_le 16 14 x) as Hl.
  change (16 ^ Z.of_nat 14) with (2 ^ 56) in Hl. lia.
Qed.

(** X9. A field printed by [%014lx] reads back, as a hexadecimal numeral, to
    the limb it was printed from, for every 64-bit limb. *)
Theorem printed_field_reads_back (x : Z) :
  0 <= x < 2 ^ 64 -> parse_hex (fmt_014lx x) = Some x.
Proof. apply fmt_014lx_parse. Qed.

Lemma printed_field_reads_back_witness :
  0 <= 2 ^ 64 - 1 < 2 ^ 64 /\ parse_hex (fmt_014lx (2 ^ 64 - 1)) = Some (2 ^ 64 - 1).
Proof.
  split; [lia |]. apply (printed_field_reads_back (2 ^ 64 - 1)). lia.
Defined.

(** X10. A printed field has exactly 14 characters when the limb is below
    2^56 and more than 14 otherwise: wider limbs are printed in full, not
    cut. *)
Theorem printed_field_width (x : Z) :
  0 <= x < 2 ^ 64 ->
  (x < 2 ^ 56 -> length (fmt_014lx x) = 14%nat) /\
  (2 ^ 56 <= x -> (14 < length (fmt_014lx x) <= 16)%nat).
Proof.
  intros Hx. rewrite fmt_014lx_length. split; intros H.
  - rewrite <- fmt_014lx_length. apply fmt_014lx_width_14. lia.
  - pose proof (hex_le_length_gt 16 14 x) as Hg.
    change (16 ^ Z.of_nat 14) with (2 ^ 56) in Hg.
    pose proof (hex_le_length_le 16 16 x) as Hl.
    change (16 ^ Z.of_nat 16) with (2 ^ 64) in Hl. lia.
Qed.

Lemma printed_field_width_witness :
  0 <= 2 ^ 56 < 2 ^ 64 /\
  (2 ^ 56 < 2 ^ 56 -> length (fmt_014lx (2 ^ 56)) = 14%nat) /\
  (2 ^ 56 <= 2 ^ 56 -> (14 < length (fmt_014lx (2 ^ 56)) <= 16)%nat).
Proof.
  split; [lia |]. apply (printed_field_width (2 ^ 56)). lia.
Defined.

(** X11. Whatever the operands, the result of either multiplier is printed
    by [print_fe] as a line of exactly 76 characters: five fields of 14
    digits, each followed by a space, and the newline. *)
Theorem printed_result_length (a b : fe) :
  length (print_fe (fe_mul_schoolbook a b)) = 76%nat /\
  length (print_fe (fe_mul_karatsuba_opt a b)) = 76%nat.
Proof.
  assert (H : forall r, fe_valid r -> length (print_fe r) = 76%nat).
  { intros r (H0 & H1 & H2 & H3 & H4). unfold limb_ok in *.
    rewrite print_fe_fields.
    repeat (rewrite length_app || rewrite length_cons).
    rewrite !fmt_014lx_width_14 by lia.
    reflexivity. }
  split; apply H; [apply schoolbook_valid | apply karatsuba_valid].
Qed.

(** X12. [print_fe] prints different lines for different results: two arrays
    of 64-bit limbs with the same printed line are equal. *)
Theorem print_fe_injective (r r' : fe) :
  fe_u64 r -> fe_u64 r' -> print_fe r = print_fe r' -> r = r'.
Proof.
  intros Hr Hr' E. rewrite !print_fe_fields in E.
  destruct r as [x0 x1 x2 x3 x4], r' as [y0 y1 y2 y3 y4].
  unfold fe_u64, fe_to_list in Hr, Hr'; cbn [l0 l1 l2 l3 l4] in *.
  repeat match goal with
         | H : Forall _ (_ :: _) |- _ => apply Forall_cons in H; destruct H as [? H]
         end.
  apply field_split in E; try apply fmt_014lx_no_space. destruct E as [E4 E].
  apply field_split in E; try apply fmt_014lx_no_space. destruct E as [E3 E].
  apply field_split in E; try apply fmt_014lx_no_space. destruct E as [E2 E].
  apply field_split in E; try apply fmt_014lx_no_space. destruct E as [E1 E].
  apply field_split in E; try apply fmt_014lx_no_space. destruct E as [E0 _].
  apply fmt_014lx_inj in E0, E1, E2, E3, E4; try assumption.
  congruence.
Qed.

Lemma print_fe_injective_witness :
  fe_u64 main_a /\ fe_u64 main_a /\ print_fe main_a = print_fe main_a /\ main_a = main_a.
Proof.
  assert (Hu : fe_u64 main_a).
  { unfold fe_u64, fe_to_list, main_a; cbn [l0 l1 l2 l3 l4].
    repeat (constructor; [lia |]); constructor. }
  split; [exact Hu |]. split; [exact Hu |]. split; [reflexivity |].
  apply (print_fe_injective main_a main_a); [exact Hu | exact Hu | reflexivity].
Defined.
